(** * The video player page as an event-driven state machine

    Shallow embedding of [client/src/pages/video-player.tsx].

    The React component keeps ten pieces of state ([useState]), two refs and
    talks to three platform objects: the [<video>] element, the document
    (fullscreen) and the timer table.  Every handler of the component is a
    function on a [World] that holds all of these; promises returned by the
    platform ([play()], [requestFullscreen()], [exitFullscreen()]) are kept in
    a table together with the reaction the source attached to them, and are
    settled by a later event.

    Numbers: JavaScript numbers are IEEE 754 binary64 values and are
    modelled by the primitive type [float], whose operations round as the
    source's do and include the infinities and NaN.  An assignment to a
    property of the element is recorded as the value assigned; what the
    element then does with it (clamping a seek to the seekable range,
    refusing a non-finite value) is the platform's affair. *)

From Stdlib Require Import Floats ZArith Lia.
From stdpp Require Import gmap strings.

Open Scope float_scope.

(** ** Data *)

(** The [useState] cells of the component (lines 7-16). *)
Record PlayerState : Type := mkPlayerState {
  isLoading : bool;
  hasError : bool;
  isPlaying : bool;
  isMuted : bool;
  currentTime : float;
  duration : float;
  volume : float;
  isFullscreen : bool;
  showControls : bool;
  controlsTimeout : option nat
}.

(** The defaults passed to [useState]. *)
Definition initialState : PlayerState :=
  {| isLoading := true; hasError := false; isPlaying := false; isMuted := true;
     currentTime := 0; duration := 0; volume := 1;
     isFullscreen := false; showControls := false; controlsTimeout := None |}.

(** The part of [HTMLVideoElement] the component reads and writes. *)
Record Video : Type := mkVideo {
  el_currentTime : float;
  el_duration : float;
  el_volume : float;
  el_muted : bool
}.

(** What [getBoundingClientRect()] of the progress bar returns, as far as
    [handleSeek] looks at it. *)
Record Rect : Type := mkRect { rect_left : float; rect_width : float }.

(** Method calls issued to the platform; the model records them in order. *)
Inductive Call : Type :=
| CallPlay | CallPause | CallLoad | CallRequestFullscreen | CallExitFullscreen.

(** What the source attaches to a promise it obtained.
    - [AutoplayCatch]: [handleCanPlay], [play().catch(...)] (lines 34-37);
    - [Discarded]: [togglePlayPause], the value of [play()] is dropped (line 65);
    - [AwaitRequest] / [AwaitExit]: the two [try { await ... } catch] blocks
      of [toggleFullscreen] (lines 100-105 and 107-112). *)
Inductive Reaction : Type :=
| AutoplayCatch | Discarded | AwaitRequest | AwaitExit.

Inductive Outcome : Type := Fulfilled | Rejected.

(** A pending [setTimeout] callback of [showControlsTemporarily].  The arrow
    function of lines 129-133 closes over the [isPlaying] constant of the
    render that created [showControlsTemporarily]; [seesPlaying] is that
    captured value. *)
Record Timer : Type := mkTimer { due : nat; seesPlaying : bool }.

Record World : Type := mkWorld {
  ui : PlayerState;
  videoRef : option Video;
  progressBarRef : option Rect;
  fullscreenElement : bool;
  timers : gmap nat Timer;
  nextTimer : nat;
  promises : gmap nat Reaction;
  nextPromise : nat;
  clock : nat;
  console : list string;
  unhandled : list nat;
  calls : list Call;
  keyIsPlaying : bool
}.

(** ** Field updates *)

Module Upd.

Definition setIsLoading (b : bool) (s : PlayerState) : PlayerState :=
  mkPlayerState b (hasError s) (isPlaying s) (isMuted s) (currentTime s)
    (duration s) (volume s) (isFullscreen s) (showControls s) (controlsTimeout s).
Definition setHasError (b : bool) (s : PlayerState) : PlayerState :=
  mkPlayerState (isLoading s) b (isPlaying s) (isMuted s) (currentTime s)
    (duration s) (volume s) (isFullscreen s) (showControls s) (controlsTimeout s).
Definition setIsPlaying (b : bool) (s : PlayerState) : PlayerState :=
  mkPlayerState (isLoading s) (hasError s) b (isMuted s) (currentTime s)
    (duration s) (volume s) (isFullscreen s) (showControls s) (controlsTimeout s).
Definition setIsMuted (b : bool) (s : PlayerState) : PlayerState :=
  mkPlayerState (isLoading s) (hasError s) (isPlaying s) b (currentTime s)
    (duration s) (volume s) (isFullscreen s) (showControls s) (controlsTimeout s).
Definition setCurrentTime (t : float) (s : PlayerState) : PlayerState :=
  mkPlayerState (isLoading s) (hasError s) (isPlaying s) (isMuted s) t
    (duration s) (volume s) (isFullscreen s) (showControls s) (controlsTimeout s).
Definition setDuration (d : float) (s : PlayerState) : PlayerState :=
  mkPlayerState (isLoading s) (hasError s) (isPlaying s) (isMuted s) (currentTime s)
    d (volume s) (isFullscreen s) (showControls s) (controlsTimeout s).
Definition setVolume (x : float) (s : PlayerState) : PlayerState :=
  mkPlayerState (isLoading s) (hasError s) (isPlaying s) (isMuted s) (currentTime s)
    (duration s) x (isFullscreen s) (showControls s) (controlsTimeout s).
Definition setIsFullscreen (b : bool) (s : PlayerState) : PlayerState :=
  mkPlayerState (isLoading s) (hasError s) (isPlaying s) (isMuted s) (currentTime s)
    (duration s) (volume s) b (showControls s) (controlsTimeout s).
Definition setShowControls (b : bool) (s : PlayerState) : PlayerState :=
  mkPlayerState (isLoading s) (hasError s) (isPlaying s) (isMuted s) (currentTime s)
    (duration s) (volume s) (isFullscreen s) b (controlsTimeout s).
Definition setControlsTimeout (t : option nat) (s : PlayerState) : PlayerState :=
  mkPlayerState (isLoading s) (hasError s) (isPlaying s) (isMuted s) (currentTime s)
    (duration s) (volume s) (isFullscreen s) (showControls s) t.

Definition el_setCurrentTime (t : float) (v : Video) : Video :=
  mkVideo t (el_duration v) (el_volume v) (el_muted v).
Definition el_setDuration (d : float) (v : Video) : Video :=
  mkVideo (el_currentTime v) d (el_volume v) (el_muted v).
Definition el_setVolume (x : float) (v : Video) : Video :=
  mkVideo (el_currentTime v) (el_duration v) x (el_muted v).
Definition el_setMuted (b : bool) (v : Video) : Video :=
  mkVideo (el_currentTime v) (el_duration v) (el_volume v) b.

Definition with_ui (f : PlayerState -> PlayerState) (w : World) : World :=
  mkWorld (f (ui w)) (videoRef w) (progressBarRef w) (fullscreenElement w)
    (timers w) (nextTimer w) (promises w) (nextPromise w) (clock w)
    (console w) (unhandled w) (calls w) (keyIsPlaying w).
Definition with_video (v : Video) (w : World) : World :=
  mkWorld (ui w) (Some v) (progressBarRef w) (fullscreenElement w)
    (timers w) (nextTimer w) (promises w) (nextPromise w) (clock w)
    (console w) (unhandled w) (calls w) (keyIsPlaying w).
Definition with_fullscreenElement (b : bool) (w : World) : World :=
  mkWorld (ui w) (videoRef w) (progressBarRef w) b
    (timers w) (nextTimer w) (promises w) (nextPromise w) (clock w)
    (console w) (unhandled w) (calls w) (keyIsPlaying w).
Definition with_timers (t : gmap nat Timer) (n : nat) (w : World) : World :=
  mkWorld (ui w) (videoRef w) (progressBarRef w) (fullscreenElement w)
    t n (promises w) (nextPromise w) (clock w)
    (console w) (unhandled w) (calls w) (keyIsPlaying w).
Definition with_promises (p : gmap nat Reaction) (n : nat) (w : World) : World :=
  mkWorld (ui w) (videoRef w) (progressBarRef w) (fullscreenElement w)
    (timers w) (nextTimer w) p n (clock w)
    (console w) (unhandled w) (calls w) (keyIsPlaying w).
Definition with_clock (c : nat) (w : World) : World :=
  mkWorld (ui w) (videoRef w) (progressBarRef w) (fullscreenElement w)
    (timers w) (nextTimer w) (promises w) (nextPromise w) c
    (console w) (unhandled w) (calls w) (keyIsPlaying w).
Definition with_console (l : list string) (w : World) : World :=
  mkWorld (ui w) (videoRef w) (progressBarRef w) (fullscreenElement w)
    (timers w) (nextTimer w) (promises w) (nextPromise w) (clock w)
    l (unhandled w) (calls w) (keyIsPlaying w).
Definition with_unhandled (l : list nat) (w : World) : World :=
  mkWorld (ui w) (videoRef w) (progressBarRef w) (fullscreenElement w)
    (timers w) (nextTimer w) (promises w) (nextPromise w) (clock w)
    (console w) l (calls w) (keyIsPlaying w).
Definition with_calls (l : list Call) (w : World) : World :=
  mkWorld (ui w) (videoRef w) (progressBarRef w) (fullscreenElement w)
    (timers w) (nextTimer w) (promises w) (nextPromise w) (clock w)
    (console w) (unhandled w) l (keyIsPlaying w).
Definition with_keyIsPlaying (b : bool) (w : World) : World :=
  mkWorld (ui w) (videoRef w) (progressBarRef w) (fullscreenElement w)
    (timers w) (nextTimer w) (promises w) (nextPromise w) (clock w)
    (console w) (unhandled w) (calls w) b.

End Upd.
Import Upd.

(** ** Platform primitives *)

(** A method call on the element or the document. *)
Definition call (c : Call) (w : World) : World :=
  with_calls (calls w ++ [c]) w.

(** The platform hands back a fresh promise; [r] is what the caller does
    with it. *)
Definition spawn (r : Reaction) (w : World) : World :=
  with_promises (<[nextPromise w := r]> (promises w)) (S (nextPromise w)) w.

(** [setTimeout(cb, ms)]: returns the new handle and the updated table. *)
Definition setTimeout (t : Timer) (w : World) : nat * World :=
  (nextTimer w, with_timers (<[nextTimer w := t]> (timers w)) (S (nextTimer w)) w).

Definition clearTimeout (id : nat) (w : World) : World :=
  with_timers (delete id (timers w)) (nextTimer w) w.

(** [if (controlsTimeout)]: [null] and the handle [0] are falsy. *)
Definition truthy (h : option nat) : option nat :=
  match h with
  | Some (S n) => Some (S n)
  | _ => None
  end.

(** [a > b] on numbers; false when either side is NaN. *)
Definition gtb (a b : float) : bool := PrimFloat.ltb b a.

(** [Math.max(a, b)] and [Math.min(a, b)]: NaN when either argument is NaN,
    and [-0] counts as smaller than [+0]. *)
Definition Math_max (a b : float) : float :=
  if is_nan a || is_nan b then nan
  else if PrimFloat.ltb a b then b
  else if PrimFloat.ltb b a then a
  else if get_sign a then b else a.

Definition Math_min (a b : float) : float :=
  if is_nan a || is_nan b then nan
  else if PrimFloat.ltb a b then a
  else if PrimFloat.ltb b a then b
  else if get_sign a then a else b.

(** [Object.is] on numbers, the comparison React applies to the
    dependencies of a hook. *)
Definition sameValue (a b : float) : bool := PrimFloat.Leibniz.eqb a b.

(** The auto-hide delay of line 133, in milliseconds. *)
Definition HIDE_DELAY : nat := 3000.

(** ** The handlers of the component *)

(** Lines 24-27. *)
Definition handleLoadStart (w : World) : World :=
  with_ui (setHasError false) (with_ui (setIsLoading true) w).

(** Lines 29-39.  [play()] returns a promise whose rejection handler is the
    arrow function of lines 34-37. *)
Definition handleCanPlay (w : World) : World :=
  let w1 := with_ui (setIsLoading false) w in
  match videoRef w1 with
  | Some v =>
      let w2 := with_ui (setDuration (el_duration v)) w1 in
      spawn AutoplayCatch (call CallPlay w2)
  | None => w1
  end.

(** Lines 41-44. *)
Definition handleError (w : World) : World :=
  with_ui (setHasError true) (with_ui (setIsLoading false) w).

(** Lines 46-48. *)
Definition handlePlay (w : World) : World := with_ui (setIsPlaying true) w.

(** Lines 50-52. *)
Definition handlePause (w : World) : World := with_ui (setIsPlaying false) w.

(** Lines 54-58. *)
Definition handleTimeUpdate (w : World) : World :=
  match videoRef w with
  | Some v => with_ui (setCurrentTime (el_currentTime v)) w
  | None => w
  end.

(** Lines 60-68.  [playing] is the [isPlaying] constant the closure sees: the
    current one for the buttons of the render, a memoised one for the
    keyboard listener (see [handleKeyDown]).  The promise of [play()] is
    dropped. *)
Definition togglePlayPause (playing : bool) (w : World) : World :=
  match videoRef w with
  | Some _ =>
      if playing then call CallPause w
      else spawn Discarded (call CallPlay w)
  | None => w
  end.

(** Lines 70-75. *)
Definition toggleMute (w : World) : World :=
  match videoRef w with
  | Some v =>
      let v' := el_setMuted (negb (el_muted v)) v in
      with_ui (setIsMuted (el_muted v')) (with_video v' w)
  | None => w
  end.

(** Lines 77-85; [newVolume] is the parsed value of the range input. *)
Definition handleVolumeChange (newVolume : float) (w : World) : World :=
  let w1 := with_ui (setVolume newVolume) w in
  match videoRef w1 with
  | Some v =>
      let v' := el_setMuted false (el_setVolume newVolume v) in
      with_ui (setIsMuted false) (with_video v' w1)
  | None => w1
  end.

(** Lines 87-94; [clientX] is the pointer's X coordinate. *)
Definition handleSeek (clientX : float) (w : World) : World :=
  match progressBarRef w, videoRef w with
  | Some rect, Some v =>
      let clickX := clientX - rect_left rect in
      let progress := clickX / rect_width rect in
      with_video (el_setCurrentTime (progress * duration (ui w)) v) w
  | _, _ => w
  end.

(** Lines 96-114, up to the [await]: the request is issued and the rest of
    the [try] block waits for the promise. *)
Definition toggleFullscreen (w : World) : World :=
  if negb (fullscreenElement w)
  then spawn AwaitRequest (call CallRequestFullscreen w)
  else spawn AwaitExit (call CallExitFullscreen w).

(** Lines 116-122. *)
Definition handleRetry (w : World) : World :=
  let w1 := with_ui (setIsLoading true) (with_ui (setHasError false) w) in
  match videoRef w1 with
  | Some _ => call CallLoad w1
  | None => w1
  end.

(** Lines 124-135.  The callback handed to [setTimeout] keeps the
    [isPlaying] of the render in which the pointer moved. *)
Definition showControlsTemporarily (w : World) : World :=
  let w1 := with_ui (setShowControls true) w in
  let w2 := match truthy (controlsTimeout (ui w)) with
            | Some id => clearTimeout id w1
            | None => w1
            end in
  let '(timeout, w3) :=
    setTimeout (mkTimer (clock w2 + HIDE_DELAY) (isPlaying (ui w))) w2 in
  with_ui (setControlsTimeout (Some timeout)) w3.

(** Lines 137-139. *)
Definition handleMouseMove (w : World) : World := showControlsTemporarily w.

(** Lines 141-164.  The callback is memoised on [duration] alone, so the
    [togglePlayPause] it calls is the one of the render in which [duration]
    last changed; [keyIsPlaying] is the [isPlaying] that one sees.
    [toggleMute] and [toggleFullscreen] read nothing but the refs and the
    document.  [e.preventDefault()] has no effect on the model. *)
Definition handleKeyDown (code : string) (w : World) : World :=
  if String.eqb code "Space" then togglePlayPause (keyIsPlaying w) w
  else if String.eqb code "KeyM" then toggleMute w
  else if String.eqb code "KeyF" then toggleFullscreen w
  else if String.eqb code "ArrowLeft" then
    match videoRef w with
    | Some v => with_video (el_setCurrentTime (Math_max 0 (el_currentTime v - 10)) v) w
    | None => w
    end
  else if String.eqb code "ArrowRight" then
    match videoRef w with
    | Some v =>
        with_video (el_setCurrentTime (Math_min (duration (ui w)) (el_currentTime v + 10)) v) w
    | None => w
    end
  else w.

(** Lines 174-176. *)
Definition handleFullscreenChange (w : World) : World :=
  with_ui (setIsFullscreen (fullscreenElement w)) w.

(** Line 198. *)
Definition progressPercentage (s : PlayerState) : float :=
  if gtb (duration s) 0 then (currentTime s / duration s) * 100 else 0.

(** The class of the controls overlay, line 258: the overlay is opaque when
    [showControls || !isPlaying]. *)
Definition controlsVisible (s : PlayerState) : bool :=
  showControls s || negb (isPlaying s).

(** The error panel with the "Try Again" button is rendered under
    [hasError &&] (line 213). *)
Definition retryRendered (s : PlayerState) : bool := hasError s.

(** ** Promise and timer callbacks *)

(** The reaction attached to promise [id] runs with outcome [o].  A rejected
    promise nobody listens to is reported by the platform as an unhandled
    rejection. *)
Definition settle (id : nat) (o : Outcome) (w : World) : World :=
  match promises w !! id with
  | None => w
  | Some r =>
      let w' := with_promises (delete id (promises w)) (nextPromise w) w in
      match r, o with
      | AutoplayCatch, Rejected =>
          with_ui (setIsLoading false) (with_ui (setHasError true) w')
      | AutoplayCatch, Fulfilled => w'
      | Discarded, Rejected => with_unhandled (unhandled w' ++ [id]) w'
      | Discarded, Fulfilled => w'
      | AwaitRequest, Fulfilled => with_ui (setIsFullscreen true) w'
      | AwaitRequest, Rejected =>
          with_console (console w' ++ ["Error attempting to enable fullscreen:"%string]) w'
      | AwaitExit, Fulfilled => with_ui (setIsFullscreen false) w'
      | AwaitExit, Rejected =>
          with_console (console w' ++ ["Error attempting to exit fullscreen:"%string]) w'
      end
  end.

(** The timer [id] expires: lines 130-132 with the captured [isPlaying]. *)
Definition timerFire (id : nat) (w : World) : World :=
  match timers w !! id with
  | None => w
  | Some t =>
      if (due t <=? clock w)%nat then
        let w' := clearTimeout id w in
        if seesPlaying t then with_ui (setShowControls false) w' else w'
      else w
  end.

(** ** Rendering and effects

    After a handler has run React renders again and runs the effects whose
    dependencies changed. *)
Definition commit (old new : World) : World :=
  (* lines 184-188, dependency [isPlaying] *)
  let w1 :=
    if Bool.eqb (isPlaying (ui old)) (isPlaying (ui new)) then new
    else if negb (isPlaying (ui new)) then with_ui (setShowControls true) new
    else new in
  (* lines 190-196, dependency [controlsTimeout]: the cleanup of the previous
     effect clears the previous handle *)
  let w2 :=
    if decide (controlsTimeout (ui old) = controlsTimeout (ui new)) then w1
    else match truthy (controlsTimeout (ui old)) with
         | Some id => clearTimeout id w1
         | None => w1
         end in
  (* line 164, dependency [duration] of the memoised [handleKeyDown] *)
  if sameValue (duration (ui old)) (duration (ui new)) then w2
  else with_keyIsPlaying (isPlaying (ui new)) w2.

(** The world after the first render and its effects: the effect of lines
    184-188 runs once and shows the controls. *)
Definition mount (v : Video) (bar : Rect) : World :=
  mkWorld (setShowControls true initialState) (Some v) (Some bar) false
    ∅ 1%nat ∅ 0%nat 0%nat [] [] [] false.

(** ** Events *)

Inductive Event : Type :=
(* events of the <video> element, lines 244-249 *)
| OnLoadStart | OnCanPlay | OnError | OnPlay | OnPause | OnTimeUpdate
(* user input *)
| ClickPlayPause | ClickMute | VolumeInput (newVolume : float)
| ProgressClick (clientX : float) | ClickFullscreen | ClickRetry
| MouseMove | TouchStart | KeyDown (code : string)
(* platform *)
| FullscreenChange (active : bool)
| Settle (id : nat) (o : Outcome)
| TimerFire (id : nat)
| Tick (ms : nat)
| MediaProgress (position length : float).

Definition handle (e : Event) (w : World) : World :=
  match e with
  | OnLoadStart => handleLoadStart w
  | OnCanPlay => handleCanPlay w
  | OnError => handleError w
  | OnPlay => handlePlay w
  | OnPause => handlePause w
  | OnTimeUpdate => handleTimeUpdate w
  | ClickPlayPause => togglePlayPause (isPlaying (ui w)) w
  | ClickMute => toggleMute w
  | VolumeInput x => handleVolumeChange x w
  | ProgressClick x => handleSeek x w
  | ClickFullscreen => toggleFullscreen w
  | ClickRetry => if retryRendered (ui w) then handleRetry w else w
  | MouseMove => handleMouseMove w
  | TouchStart => showControlsTemporarily w
  | KeyDown code => handleKeyDown code w
  | FullscreenChange b => handleFullscreenChange (with_fullscreenElement b w)
  | Settle id o => settle id o w
  | TimerFire id => timerFire id w
  | Tick ms => with_clock (clock w + ms)%nat w
  | MediaProgress t d =>
      match videoRef w with
      | Some v => with_video (el_setDuration d (el_setCurrentTime t v)) w
      | None => w
      end
  end.

Definition step (e : Event) (w : World) : World := commit w (handle e w).

Definition run (es : list Event) (w : World) : World :=
  fold_left (fun w e => step e w) es w.

(** The events a user can cause. *)
Definition userCommand (e : Event) : bool :=
  match e with
  | ClickPlayPause | ClickMute | VolumeInput _ | ProgressClick _
  | ClickFullscreen | ClickRetry | MouseMove | TouchStart | KeyDown _ => true
  | _ => false
  end.

(** The status the page shows for a state.  The source has no phase
    variable; the page derives what it shows from three flags: the loading
    panel from [isLoading] (line 203), the error panel from [hasError]
    (line 213), the pause icon from [isPlaying] (line 293) and the centre
    play button from [!isPlaying && !isLoading && !hasError] (line 356).
    Between [canplay] and [play] the flags are those of the paused state. *)
Inductive Phase : Type := Loading | Ready | Playing | Paused | Errored.

Definition inPhase (p : Phase) (s : PlayerState) : bool :=
  match p with
  | Loading => isLoading s
  | Errored => hasError s
  | Playing => isPlaying s
  | Ready | Paused => negb (isPlaying s) && negb (isLoading s) && negb (hasError s)
  end.

(** ** Observations *)

(** The playback position of the element, when it is mounted. *)
Definition elementTime (w : World) : option float := el_currentTime <$> videoRef w.

(** The element's mute flag and volume, when it is mounted. *)
Definition elementMuted (w : World) : option bool := el_muted <$> videoRef w.
Definition elementVolume (w : World) : option float := el_volume <$> videoRef w.

(** The loading panel and the error panel are not both up. *)
Definition loadingXorError (s : PlayerState) : Prop :=
  isLoading s && hasError s = false.

(** The value shown by the volume slider, line 320. *)
Definition sliderValue (s : PlayerState) : float :=
  if isMuted s then 0 else volume s.

(** Unmounting runs the cleanup of the effect of lines 190-196 with the
    handle of the last render. *)
Definition unmount (w : World) : World :=
  match truthy (controlsTimeout (ui w)) with
  | Some id => clearTimeout id w
  | None => w
  end.

(** The timer table holds nothing but the timer whose handle the component
    remembers, and handles are positive and below the next one. *)
Definition timerSlot (w : World) : Prop :=
  (1 <= nextTimer w)%nat /\
  (forall id, controlsTimeout (ui w) = Some id ->
              (1 <= id)%nat /\ (id < nextTimer w)%nat) /\
  (timers w = ∅ \/
   exists id t, timers w = {[id := t]} /\
                controlsTimeout (ui w) = Some id /\
                (due t <= clock w + HIDE_DELAY)%nat).

(** Only pointer activity, the expiry of a timer and the passing of time
    touch the timer table, the handle and the clock. *)
Definition timerEvent (e : Event) : bool :=
  match e with
  | MouseMove | TouchStart | TimerFire _ | Tick _ => true
  | _ => false
  end.

(** The component state and the element agree on mute and volume. *)
Definition audioMirrored (w : World) : Prop :=
  exists v, videoRef w = Some v /\
            el_muted v = isMuted (ui w) /\ el_volume v = volume (ui w).

(** ** Basic facts about rendering and dispatch *)

Ltac unfold_handlers :=
  unfold handle, handleKeyDown, handleMouseMove in *;
  unfold handleLoadStart, handleCanPlay, handleError, handlePlay,
    handlePause, handleTimeUpdate, togglePlayPause, toggleMute,
    handleVolumeChange, handleSeek, toggleFullscreen, handleRetry,
    showControlsTemporarily, handleFullscreenChange, settle, timerFire,
    retryRendered, setTimeout, clearTimeout, spawn, call in *.

Ltac by_cases := repeat case_match; simpl in *; try done.

Lemma sameValue_refl (a : float) : sameValue a a = true.
Proof. apply FloatAxioms.Leibniz.eqb_spec. reflexivity. Qed.

Section Commit.
Variables old new : World.

(** The effects touch [showControls], the timer table and the memoised
    key handler, nothing else. *)
Lemma commit_frame :
  let w := commit old new in
  isLoading (ui w) = isLoading (ui new) /\
  hasError (ui w) = hasError (ui new) /\
  isPlaying (ui w) = isPlaying (ui new) /\
  isMuted (ui w) = isMuted (ui new) /\
  currentTime (ui w) = currentTime (ui new) /\
  duration (ui w) = duration (ui new) /\
  volume (ui w) = volume (ui new) /\
  isFullscreen (ui w) = isFullscreen (ui new) /\
  controlsTimeout (ui w) = controlsTimeout (ui new).
Proof. unfold commit, clearTimeout. by_cases. Qed.

Lemma commit_platform :
  let w := commit old new in
  videoRef w = videoRef new /\
  progressBarRef w = progressBarRef new /\
  fullscreenElement w = fullscreenElement new /\
  promises w = promises new /\
  nextPromise w = nextPromise new /\
  clock w = clock new /\
  console w = console new /\
  unhandled w = unhandled new /\
  calls w = calls new.
Proof. unfold commit, clearTimeout. by_cases. Qed.

(** No effect runs when the render sees the same state. *)
Lemma commit_same_ui : ui new = ui old -> commit old new = new.
Proof.
  intros E. unfold commit. rewrite E, eqb_reflx.
  rewrite decide_True by reflexivity.
  rewrite sameValue_refl.
  reflexivity.
Qed.
End Commit.

Lemma commit_showControls_same old new :
  isPlaying (ui old) = isPlaying (ui new) ->
  showControls (ui (commit old new)) = showControls (ui new).
Proof. intros E. unfold commit, clearTimeout. rewrite E, eqb_reflx. by_cases. Qed.

Lemma commit_isLoading old new : isLoading (ui (commit old new)) = isLoading (ui new).
Proof. apply (commit_frame old new). Qed.
Lemma commit_hasError old new : hasError (ui (commit old new)) = hasError (ui new).
Proof. apply (commit_frame old new). Qed.
Lemma commit_isPlaying old new : isPlaying (ui (commit old new)) = isPlaying (ui new).
Proof. apply (commit_frame old new). Qed.
Lemma commit_isMuted old new : isMuted (ui (commit old new)) = isMuted (ui new).
Proof. apply (commit_frame old new). Qed.
Lemma commit_duration old new : duration (ui (commit old new)) = duration (ui new).
Proof. apply (commit_frame old new). Qed.
Lemma commit_volume old new : volume (ui (commit old new)) = volume (ui new).
Proof. apply (commit_frame old new). Qed.
Lemma commit_isFullscreen old new : isFullscreen (ui (commit old new)) = isFullscreen (ui new).
Proof. apply (commit_frame old new). Qed.
Lemma commit_videoRef old new : videoRef (commit old new) = videoRef new.
Proof. apply (commit_platform old new). Qed.
Lemma commit_promises old new : promises (commit old new) = promises new.
Proof. apply (commit_platform old new). Qed.
Lemma commit_nextPromise old new : nextPromise (commit old new) = nextPromise new.
Proof. apply (commit_platform old new). Qed.
Lemma commit_console old new : console (commit old new) = console new.
Proof. apply (commit_platform old new). Qed.
Lemma commit_unhandled old new : unhandled (commit old new) = unhandled new.
Proof. apply (commit_platform old new). Qed.
Lemma commit_calls old new : calls (commit old new) = calls new.
Proof. apply (commit_platform old new). Qed.

Create Rewrite HintDb commit_rw.
#[global] Hint Rewrite commit_isLoading commit_hasError commit_isPlaying
  commit_isMuted commit_duration commit_volume commit_isFullscreen
  commit_videoRef commit_promises commit_nextPromise commit_console
  commit_unhandled commit_calls : commit_rw.

Lemma run_cons e es w : run (e :: es) w = run es (step e w).
Proof. reflexivity. Qed.

Lemma run_app es1 es2 w : run (es1 ++ es2) w = run es2 (run es1 w).
Proof. unfold run. apply fold_left_app. Qed.

(** ** The refs stay attached

    Both elements are rendered unconditionally, so after mounting every
    handler finds them; the guards [if (videoRef.current)] never fail. *)
Lemma step_keeps_refs e w :
  is_Some (videoRef w) ->
  is_Some (videoRef (step e w)) /\ progressBarRef (step e w) = progressBarRef w.
Proof.
  intros [v Hv]. unfold step.
  rewrite commit_videoRef, (proj1 (proj2 (commit_platform w (handle e w)))).
  destruct e; unfold_handlers; by_cases; eauto.
Qed.

Lemma mounted_refs es v bar :
  is_Some (videoRef (run es (mount v bar))) /\
  progressBarRef (run es (mount v bar)) = Some bar.
Proof.
  assert (G : forall w, is_Some (videoRef w) ->
            is_Some (videoRef (run es w)) /\
            progressBarRef (run es w) = progressBarRef w).
  { induction es as [|e es IH]; intros w Hw; [auto|].
    destruct (step_keeps_refs e w Hw) as [H1 H2].
    rewrite run_cons. destruct (IH _ H1) as [H3 H4].
    split; [exact H3|congruence]. }
  apply G. simpl. eauto.
Qed.

(** ** Loading and error flags *)

Lemma step_loadingXorError e w :
  loadingXorError (ui w) -> loadingXorError (ui (step e w)).
Proof.
  unfold loadingXorError, step. autorewrite with commit_rw.
  destruct e; unfold_handlers; by_cases.
  all: try (destruct (isLoading (ui w)); done).
Qed.

Lemma run_loadingXorError es : forall w,
  loadingXorError (ui w) -> loadingXorError (ui (run es w)).
Proof.
  induction es as [|e es IH]; intros w Hw; [exact Hw|].
  rewrite run_cons. apply IH, step_loadingXorError, Hw.
Qed.

(** ** Pending promises *)

(** A pending promise stays pending, with the reaction it was given, until
    it is settled; handles are never reused. *)
Lemma step_keeps_promise e w id r :
  promises w !! id = Some r -> (id < nextPromise w)%nat ->
  (forall o, e <> Settle id o) ->
  promises (step e w) !! id = Some r /\ (id < nextPromise (step e w))%nat.
Proof.
  intros Hr Hlt He. unfold step. autorewrite with commit_rw.
  destruct e; unfold_handlers; by_cases;
    rewrite ?lookup_insert_ne by lia; auto with lia.
  all: destruct (decide (id0 = id)) as [->|Hne];
    [ exfalso; eapply He; reflexivity
    | rewrite lookup_delete_ne by done; auto ].
Qed.

Lemma run_keeps_promise es : forall w id r,
  promises w !! id = Some r -> (id < nextPromise w)%nat ->
  Forall (fun e => forall o, e <> Settle id o) es ->
  promises (run es w) !! id = Some r.
Proof.
  induction es as [|e es IH]; intros w id r Hr Hlt Hes; [exact Hr|].
  inversion Hes as [|? ? He Hes']; subst.
  destruct (step_keeps_promise e w id r Hr Hlt He) as [Hr' Hlt'].
  rewrite run_cons. eauto.
Qed.

(** Rejecting the promise of the autoplay attempt raises the error flag,
    whatever else the state holds. *)
Lemma settle_autoplay_rejected w id :
  promises w !! id = Some AutoplayCatch ->
  hasError (ui (step (Settle id Rejected) w)) = true /\
  isLoading (ui (step (Settle id Rejected) w)) = false.
Proof.
  intros H. unfold step. autorewrite with commit_rw.
  simpl. unfold settle. rewrite H. done.
Qed.

(** ** Facts about binary64 numbers *)

Lemma SFcompare_antisym f1 f2 c :
  SFcompare f1 f2 = Some c -> SFcompare f2 f1 = Some (CompOpp c).
Proof.
  destruct f1 as [s1|s1| |s1 m1 e1], f2 as [s2|s2| |s2 m2 e2]; simpl;
    try discriminate; try (intros [= <-]; reflexivity);
    try (destruct s1; intros [= <-]; reflexivity);
    try (destruct s2; intros [= <-]; reflexivity);
    try (destruct s1, s2; intros [= <-]; reflexivity).
  intros [= <-]. f_equal.
  destruct s1, s2; try reflexivity.
  - rewrite (Z.compare_antisym e1 e2).
    destruct (e1 ?= e2)%Z; simpl; try reflexivity.
    rewrite (Pos.compare_cont_antisym m1 m2 Eq). simpl.
    destruct (Pos.compare_cont Eq m1 m2); reflexivity.
  - rewrite (Z.compare_antisym e1 e2).
    destruct (e1 ?= e2)%Z; simpl; try reflexivity.
    rewrite (Pos.compare_cont_antisym m1 m2 Eq). simpl.
    destruct (Pos.compare_cont Eq m1 m2); reflexivity.
Qed.

Lemma SFcompare_some f1 f2 :
  f1 <> S754_nan -> f2 <> S754_nan -> exists c, SFcompare f1 f2 = Some c.
Proof. destruct f1, f2; simpl; intros H1 H2; try congruence; eauto. Qed.

Lemma is_nan_false a : is_nan a = false -> Prim2SF a <> S754_nan.
Proof.
  unfold is_nan. rewrite FloatAxioms.eqb_spec. intros H E.
  rewrite E in H. discriminate H.
Qed.

Lemma float_leb_refl a : is_nan a = false -> (a <=? a) = true.
Proof.
  intros H. apply is_nan_false in H. rewrite FloatAxioms.leb_spec. unfold SFleb.
  destruct (SFcompare_some _ _ H H) as [c Hc].
  pose proof (SFcompare_antisym _ _ _ Hc) as Hc'. rewrite Hc in Hc' |- *.
  destruct c; try discriminate; reflexivity.
Qed.

Lemma float_ltb_leb a b : (a <? b) = true -> (a <=? b) = true.
Proof.
  rewrite FloatAxioms.ltb_spec, FloatAxioms.leb_spec. unfold SFltb, SFleb.
  destruct (SFcompare _ _) as [[]|]; try discriminate; reflexivity.
Qed.

Lemma float_not_ltb_leb a b :
  is_nan a = false -> is_nan b = false -> (a <? b) = false -> (b <=? a) = true.
Proof.
  intros Ha Hb. apply is_nan_false in Ha, Hb.
  rewrite FloatAxioms.ltb_spec, FloatAxioms.leb_spec. unfold SFltb, SFleb.
  destruct (SFcompare_some _ _ Ha Hb) as [c Hc].
  rewrite (SFcompare_antisym _ _ _ Hc), Hc.
  destruct c; try discriminate; reflexivity.
Qed.

(** [Math.min] is below both arguments and [Math.max] above both, NaN
    apart. *)
Lemma Math_min_le a b :
  is_nan a = false -> is_nan b = false ->
  (Math_min a b <=? a) = true /\ (Math_min a b <=? b) = true.
Proof.
  intros Ha Hb. unfold Math_min. rewrite Ha, Hb. simpl.
  destruct (a <? b) eqn:E1;
    [split; [apply float_leb_refl, Ha | apply float_ltb_leb, E1]|].
  destruct (b <? a) eqn:E2;
    [split; [apply float_ltb_leb, E2 | apply float_leb_refl, Hb]|].
  destruct (get_sign a).
  - split; [apply float_leb_refl, Ha | apply float_not_ltb_leb; assumption].
  - split; [apply float_not_ltb_leb; assumption | apply float_leb_refl, Hb].
Qed.

Lemma Math_max_ge a b :
  is_nan a = false -> is_nan b = false ->
  (a <=? Math_max a b) = true /\ (b <=? Math_max a b) = true.
Proof.
  intros Ha Hb. unfold Math_max. rewrite Ha, Hb. simpl.
  destruct (a <? b) eqn:E1;
    [split; [apply float_ltb_leb, E1 | apply float_leb_refl, Hb]|].
  destruct (b <? a) eqn:E2;
    [split; [apply float_leb_refl, Ha | apply float_ltb_leb, E2]|].
  destruct (get_sign a).
  - split; [apply float_not_ltb_leb; assumption | apply float_leb_refl, Hb].
  - split; [apply float_leb_refl, Ha | apply float_not_ltb_leb; assumption].
Qed.

Lemma positive_not_zero d : (0 <? d) = true -> is_zero d = false.
Proof.
  unfold is_zero. rewrite FloatAxioms.ltb_spec, FloatAxioms.eqb_spec.
  unfold SFltb, SFeqb. intros H.
  destruct (SFcompare (Prim2SF 0) (Prim2SF d)) as [[]|] eqn:E; try discriminate.
  apply SFcompare_antisym in E. change (Prim2SF zero) with (Prim2SF 0).
  rewrite E. reflexivity.
Qed.

Lemma is_zero_spec d : is_zero d = true -> exists s, Prim2SF d = S754_zero s.
Proof.
  unfold is_zero. rewrite FloatAxioms.eqb_spec. unfold SFeqb.
  change (Prim2SF zero) with (S754_zero false).
  destruct (Prim2SF d) as [s|s| |s m e]; simpl; eauto; try discriminate;
    destruct s; discriminate.
Qed.

Lemma is_finite_spec f :
  is_finite f = true ->
  (exists s, Prim2SF f = S754_zero s) \/
  (exists s m e, Prim2SF f = S754_finite s m e).
Proof.
  unfold is_finite. intros H. apply negb_true_iff, orb_false_iff in H as [Hn Hi].
  apply is_nan_false in Hn. unfold is_infinity in Hi.
  rewrite FloatAxioms.eqb_spec, abs_spec in Hi.
  change (Prim2SF infinity) with (S754_infinity false) in Hi.
  destruct (Prim2SF f) as [s|s| |s m e]; eauto.
  - discriminate Hi.
  - congruence.
Qed.

(** A finite number times a zero is a zero. *)
Lemma finite_times_zero f d :
  is_finite f = true -> is_zero d = true -> is_zero (f * d) = true.
Proof.
  intros Hf Hd. apply is_zero_spec in Hd as [sd Hd].
  unfold is_zero. rewrite FloatAxioms.eqb_spec, mul_spec, Hd.
  change (Prim2SF zero) with (S754_zero false).
  destruct (is_finite_spec f Hf) as [[s ->] | (s & m & e & ->)]; reflexivity.
Qed.

(** * The claims *)

(** C1, as stated, fails: after the element reported [play], an [error]
    event leaves the error flag and the playing flag set together. *)
Lemma error_while_playing_stays_playing :
  let w := run [OnLoadStart; OnCanPlay; Settle 0 Fulfilled; OnPlay]
               (mount (mkVideo 0 120 1 true) (mkRect 0 800)) in
  inPhase Playing (ui w) = true /\
  inPhase Errored (ui w) = false /\
  inPhase Playing (ui (step OnError w)) = true /\
  inPhase Errored (ui (step OnError w)) = true.
Proof. vm_compute. auto. Qed.

(** C1 (amended).  Whatever events arrive after mounting, the loading flag
    and the error flag are never set together and at least one status is
    shown; [onError] sets the error flag, clears the loading flag and leaves
    the playing flag as it was. *)
Theorem loading_and_error_exclusive :
  (forall v bar es,
      let s := ui (run es (mount v bar)) in
      (inPhase Loading s && inPhase Errored s = false) /\
      (exists p, inPhase p s = true)) /\
  (forall w,
      let s := ui (step OnError w) in
      inPhase Errored s = true /\
      inPhase Loading s = false /\
      inPhase Playing s = inPhase Playing (ui w)).
Proof.
  split.
  - intros v bar es s. split.
    + apply (run_loadingXorError es (mount v bar)). reflexivity.
    + destruct (isLoading s) eqn:L; [exists Loading; exact L|].
      destruct (hasError s) eqn:E; [exists Errored; exact E|].
      destruct (isPlaying s) eqn:P; [exists Playing; exact P|].
      exists Paused. simpl. rewrite L, E, P. reflexivity.
  - intros w s. subst s. unfold step. simpl.
    autorewrite with commit_rw. auto.
Qed.

(** C2.  With the element mounted, [onCanPlay] clears the loading flag,
    copies the element's duration and calls [play()] at once; when the
    promise of that call is rejected, now or after any other events, the
    error flag is set and the loading flag is clear. *)
Theorem canplay_autoplay_rejection_is_error (w : World) (v : Video) :
  videoRef w = Some v ->
  let id := nextPromise w in
  let w1 := step OnCanPlay w in
  isLoading (ui w1) = false /\
  duration (ui w1) = el_duration v /\
  calls w1 = calls w ++ [CallPlay] /\
  promises w1 !! id = Some AutoplayCatch /\
  forall es, Forall (fun e => forall o, e <> Settle id o) es ->
    let w2 := step (Settle id Rejected) (run es w1) in
    inPhase Errored (ui w2) = true /\ inPhase Loading (ui w2) = false.
Proof.
  intros Hv id w1.
  assert (Hp : promises w1 !! id = Some AutoplayCatch /\ (id < nextPromise w1)%nat).
  { subst w1 id. unfold step. autorewrite with commit_rw.
    simpl. unfold handleCanPlay. simpl. rewrite Hv. simpl.
    rewrite lookup_insert_eq. auto with lia. }
  destruct Hp as [Hp Hlt].
  repeat split; try exact Hp.
  - subst w1. unfold step. autorewrite with commit_rw.
    simpl. unfold handleCanPlay. simpl. rewrite Hv. reflexivity.
  - subst w1. unfold step. autorewrite with commit_rw.
    simpl. unfold handleCanPlay. simpl. rewrite Hv. reflexivity.
  - subst w1. unfold step. autorewrite with commit_rw.
    simpl. unfold handleCanPlay. simpl. rewrite Hv. reflexivity.
  - apply settle_autoplay_rejected. eapply run_keeps_promise; eauto.
  - apply settle_autoplay_rejected. eapply run_keeps_promise; eauto.
Qed.

Lemma canplay_autoplay_rejection_is_error_witness :
  let w := mount (mkVideo 0 120 1 true) (mkRect 0 800) in
  let w2 := step (Settle (nextPromise w) Rejected)
                 (run [OnPlay; MouseMove] (step OnCanPlay w)) in
  inPhase Errored (ui w2) = true /\ inPhase Loading (ui w2) = false.
Proof.
  intros w.
  destruct (canplay_autoplay_rejection_is_error w (mkVideo 0 120 1 true) eq_refl)
    as (_ & _ & _ & _ & H).
  refine (H [OnPlay; MouseMove] _).
  repeat constructor; discriminate.
Defined.




(** C5.  With both refs mounted, a click at [clientX] sets the element's
    [currentTime] to [((clientX - left) / width) * duration], computed as
    the source computes it, for every fraction: nothing clamps it.  A
    fraction of one half with duration 120 seeks to 60; a fraction of 1.25
    seeks to 150, past the end, and one of -0.25 to -30, before the
    start. *)
Theorem seek_sets_fraction_of_duration
    (w : World) (bar : Rect) (v : Video) (clientX : float) :
  progressBarRef w = Some bar ->
  videoRef w = Some v ->
  let f := (clientX - rect_left bar) / rect_width bar in
  let d := duration (ui w) in
  let w1 := step (ProgressClick clientX) w in
  elementTime w1 = Some (f * d) /\
  (f = 0.5 -> d = 120 -> elementTime w1 = Some 60) /\
  (f = 1.25 -> d = 120 -> elementTime w1 = Some 150) /\
  (f = -0.25 -> d = 120 -> elementTime w1 = Some (-30)).
Proof.
  intros Hb Hv f d w1.
  assert (E : elementTime w1 = Some (f * d)).
  { subst w1. unfold elementTime, step. autorewrite with commit_rw.
    simpl. unfold handleSeek. rewrite Hb, Hv. reflexivity. }
  split; [exact E|]. rewrite E.
  repeat split; intros -> ->; reflexivity.
Qed.

Lemma seek_sets_fraction_of_duration_witness :
  let w := step OnCanPlay (mount (mkVideo 0 120 1 true) (mkRect 100 400)) in
  elementTime (step (ProgressClick 300) w) = Some 60 /\
  elementTime (step (ProgressClick 600) w) = Some 150.
Proof.
  intros w. split.
  - exact (proj1 (proj2 (seek_sets_fraction_of_duration w (mkRect 100 400)
             (mkVideo 0 120 1 true) 300 eq_refl eq_refl)) eq_refl eq_refl).
  - exact (proj1 (proj2 (proj2 (seek_sets_fraction_of_duration w (mkRect 100 400)
             (mkVideo 0 120 1 true) 600 eq_refl eq_refl))) eq_refl eq_refl).
Defined.

(** C6.  With the element at position [t] and the stored duration [d], the
    Right arrow sets the position to [Math.min(d, t + 10)] and the Left
    arrow to [Math.max(0, t - 10)], the sums rounded as the source rounds
    them.  Unless a NaN is involved the Right arrow never lands above [d]
    nor above [t + 10], and the Left arrow never below 0 nor below
    [t - 10]; at [t = 115], [d = 120] the Right arrow gives 120. *)
Theorem arrow_keys_seek_clamped (w : World) (v : Video) :
  videoRef w = Some v ->
  let t := el_currentTime v in
  let d := duration (ui w) in
  elementTime (step (KeyDown "ArrowRight") w) = Some (Math_min d (t + 10)) /\
  elementTime (step (KeyDown "ArrowLeft") w) = Some (Math_max 0 (t - 10)) /\
  (is_nan d = false -> is_nan (t + 10) = false ->
     (Math_min d (t + 10) <=? d) = true /\
     (Math_min d (t + 10) <=? t + 10) = true) /\
  (is_nan (t - 10) = false ->
     (0 <=? Math_max 0 (t - 10)) = true /\
     (t - 10 <=? Math_max 0 (t - 10)) = true) /\
  (t = 115 -> d = 120 -> Math_min d (t + 10) = 120).
Proof.
  intros Hv t d. split; [|split; [|split; [|split]]].
  - unfold elementTime, step. autorewrite with commit_rw.
    simpl. unfold handleKeyDown. simpl. rewrite Hv. reflexivity.
  - unfold elementTime, step. autorewrite with commit_rw.
    simpl. unfold handleKeyDown. simpl. rewrite Hv. reflexivity.
  - intros Hd Ht. apply Math_min_le; assumption.
  - intros Ht. apply Math_max_ge; [reflexivity | exact Ht].
  - intros -> ->. reflexivity.
Qed.

Lemma arrow_keys_seek_clamped_witness :
  let w := step (MediaProgress 115 120)
             (step OnCanPlay (mount (mkVideo 0 120 1 true) (mkRect 100 400))) in
  elementTime (step (KeyDown "ArrowRight") w) = Some 120 /\
  elementTime (step (KeyDown "ArrowLeft") w) = Some 105.
Proof.
  intros w.
  destruct (arrow_keys_seek_clamped w (mkVideo 115 120 1 true) eq_refl)
    as (H1 & H2 & _).
  split; [exact H1 | exact H2].
Defined.

(** C7.  With the element mounted, a volume change to [x] unmutes and stores
    [x]; two mute toggles after it mute and unmute again and leave [x]
    stored, in the component and on the element.  A mute toggle never
    changes the stored volume, in any state. *)
Theorem mute_independent_of_volume (w : World) (v : Video) (x : float) :
  videoRef w = Some v ->
  let w1 := step (VolumeInput x) w in
  let w2 := step ClickMute w1 in
  let w3 := step ClickMute w2 in
  (isMuted (ui w1) = false /\ elementMuted w1 = Some false /\
   volume (ui w1) = x /\ elementVolume w1 = Some x) /\
  (isMuted (ui w2) = true /\ elementMuted w2 = Some true) /\
  (isMuted (ui w3) = false /\ elementMuted w3 = Some false /\
   volume (ui w3) = x /\ elementVolume w3 = Some x) /\
  (forall w', volume (ui (step ClickMute w')) = volume (ui w') /\
              elementVolume (step ClickMute w') = elementVolume w').
Proof.
  intros Hv w1 w2 w3. subst w3 w2 w1.
  unfold elementMuted, elementVolume, step.
  autorewrite with commit_rw. simpl.
  unfold handleVolumeChange. simpl. rewrite Hv.
  unfold toggleMute.
  repeat (autorewrite with commit_rw; simpl).
  split; [auto|]. split; [auto|]. split; [auto|].
  intros w'. destruct (videoRef w') eqn:E;
    autorewrite with commit_rw; simpl; rewrite ?E; auto.
Qed.

Lemma mute_independent_of_volume_witness :
  let w := mount (mkVideo 0 120 1 true) (mkRect 100 400) in
  let w3 := step ClickMute (step ClickMute (step (VolumeInput 0.5) w)) in
  isMuted (ui w3) = false /\ elementMuted w3 = Some false /\
  volume (ui w3) = 0.5 /\ elementVolume w3 = Some 0.5.
Proof.
  intros w.
  destruct (mute_independent_of_volume w (mkVideo 0 120 1 true) 0.5 eq_refl)
    as (_ & _ & H & _).
  exact H.
Defined.

(** C8.  A fullscreen toggle changes no component state when it is issued;
    it leaves a pending request (to enter when the document has no
    fullscreen element, to exit otherwise).  When that request is rejected,
    one line is written to the console, the rejection is not left
    unhandled and the component state is still what it was; only when it is
    fulfilled is [isFullscreen] set.  The rejection of any pending
    fullscreen request leaves the component state of the state it arrives
    in unchanged. *)
Theorem fullscreen_rejection_changes_nothing :
  (forall w,
      let id := nextPromise w in
      let w1 := step ClickFullscreen w in
      ui w1 = ui w /\
      calls w1 = calls w ++ [if fullscreenElement w then CallExitFullscreen
                             else CallRequestFullscreen] /\
      promises w1 !! id = Some (if fullscreenElement w then AwaitExit
                                else AwaitRequest) /\
      (let w2 := step (Settle id Rejected) w1 in
       ui w2 = ui w /\
       length (console w2) = S (length (console w)) /\
       unhandled w2 = unhandled w) /\
      (let w2 := step (Settle id Fulfilled) w1 in
       isFullscreen (ui w2) = negb (fullscreenElement w))) /\
  (forall w id r,
      promises w !! id = Some r ->
      r = AwaitRequest \/ r = AwaitExit ->
      let w2 := step (Settle id Rejected) w in
      ui w2 = ui w /\
      length (console w2) = S (length (console w)) /\
      unhandled w2 = unhandled w).
Proof.
  assert (Hrej : forall w id r,
      promises w !! id = Some r ->
      r = AwaitRequest \/ r = AwaitExit ->
      let w2 := step (Settle id Rejected) w in
      ui w2 = ui w /\
      length (console w2) = S (length (console w)) /\
      unhandled w2 = unhandled w).
  { intros w id r Hr Hk w2. subst w2. unfold step.
    assert (Hui : ui (handle (Settle id Rejected) w) = ui w).
    { simpl. unfold settle. rewrite Hr. destruct Hk; subst r; reflexivity. }
    rewrite (commit_same_ui w _ Hui).
    simpl. unfold settle. rewrite Hr.
    destruct Hk; subst r; simpl; rewrite length_app; simpl;
      repeat split; lia. }
  split; [|exact Hrej].
  intros w id w1.
  assert (Hw1 : w1 = toggleFullscreen w).
  { subst w1. unfold step. apply commit_same_ui.
    simpl. unfold toggleFullscreen. by_cases. }
  assert (Hp : promises w1 !! id
               = Some (if fullscreenElement w then AwaitExit else AwaitRequest)).
  { rewrite Hw1. subst id. unfold toggleFullscreen.
    destruct (fullscreenElement w); simpl; apply lookup_insert_eq. }
  assert (Hui : ui w1 = ui w).
  { rewrite Hw1. unfold toggleFullscreen. by_cases. }
  assert (Hc : console w1 = console w /\ unhandled w1 = unhandled w).
  { rewrite Hw1. unfold toggleFullscreen. by_cases. }
  destruct Hc as [Hc Hu].
  split; [exact Hui|]. split.
  { rewrite Hw1. unfold toggleFullscreen. by_cases. }
  split; [exact Hp|]. split.
  - destruct (Hrej w1 id _ Hp) as (A & B & C).
    { destruct (fullscreenElement w); auto. }
    simpl. rewrite A, B, C, Hui, Hc, Hu. done.
  - simpl. unfold step. autorewrite with commit_rw.
    simpl. unfold settle. rewrite Hp.
    destruct (fullscreenElement w); reflexivity.
Qed.

Lemma fullscreen_rejection_changes_nothing_witness :
  let w := step ClickFullscreen (mount (mkVideo 0 120 1 true) (mkRect 100 400)) in
  let w2 := step (Settle 0 Rejected) w in
  ui w2 = ui w /\
  length (console w2) = S (length (console w)) /\
  unhandled w2 = unhandled w.
Proof.
  intros w.
  refine (proj2 fullscreen_rejection_changes_nothing w 0%nat AwaitRequest _ _).
  - reflexivity.
  - left. reflexivity.
Defined.

(** ** The auto-hide timer *)

(** Pointer activity shows the controls and arms a timer that remembers
    whether the player was playing at that moment. *)
Lemma pointer_arms_timer w :
  let w1 := step MouseMove w in
  timers w1 !! nextTimer w
    = Some (mkTimer (clock w + HIDE_DELAY) (isPlaying (ui w))) /\
  showControls (ui w1) = true /\
  isPlaying (ui w1) = isPlaying (ui w) /\
  controlsTimeout (ui w1) = Some (nextTimer w) /\
  clock w1 = clock w /\
  videoRef w1 = videoRef w.
Proof.
  unfold step, commit. simpl.
  unfold handleMouseMove, showControlsTemporarily, setTimeout, clearTimeout.
  pose proof (sameValue_refl (duration (ui w))) as Hd.
  destruct (truthy (controlsTimeout (ui w))) as [old|] eqn:Ht; simpl;
    rewrite eqb_reflx, Hd; case_decide as Hc; simpl;
    rewrite ?lookup_insert_eq; try done.
  rewrite lookup_delete_ne, lookup_insert_eq; [done|].
  intros ->. apply Hc.
  destruct (controlsTimeout (ui w)) as [[|n]|]; simpl in Ht; congruence.
Qed.

(** While the player is not playing the overlay is shown, whatever the
    timer did to [showControls]. *)
Lemma overlay_shown_unless_playing s :
  inPhase Playing s = false -> controlsVisible s = true.
Proof. simpl. unfold controlsVisible. intros ->. apply orb_true_r. Qed.

(** When the timer was armed while playing and nothing happens for the
    delay, its expiry hides the controls. *)
Lemma timer_armed_while_playing_hides w :
  isPlaying (ui w) = true ->
  let w2 := step (Tick HIDE_DELAY) (step MouseMove w) in
  controlsVisible (ui (step (TimerFire (nextTimer w)) w2)) = false.
Proof.
  intros Hp.
  destruct (pointer_arms_timer w) as (Ht & Hs & Hpl & Hc & Hk & _).
  set (w1 := step MouseMove w) in *. simpl.
  assert (E2 : step (Tick HIDE_DELAY) w1 = with_clock (clock w1 + HIDE_DELAY)%nat w1)
    by (apply commit_same_ui; reflexivity).
  rewrite E2.
  set (w2 := with_clock (clock w1 + HIDE_DELAY)%nat w1).
  assert (Hh : handle (TimerFire (nextTimer w)) w2
               = with_ui (setShowControls false) (clearTimeout (nextTimer w) w2)).
  { simpl. unfold timerFire. subst w2. simpl. rewrite Ht, Hp, Hk. simpl.
    rewrite (proj2 (Nat.leb_le _ _)) by lia. reflexivity. }
  unfold step, controlsVisible. rewrite Hh.
  rewrite commit_isPlaying, commit_showControls_same by reflexivity.
  simpl. rewrite Hpl, Hp. reflexivity.
Qed.

(** A timer armed while playing that expires after a pause clears
    [showControls] in a paused player; the overlay is still shown. *)
Example stale_timer_after_pause :
  let w := run [OnPlay; MouseMove; OnPause; Tick HIDE_DELAY; TimerFire 1]
               (mount (mkVideo 0 120 1 true) (mkRect 100 400)) in
  isPlaying (ui w) = false /\ showControls (ui w) = false /\
  controlsVisible (ui w) = true.
Proof. vm_compute. auto. Qed.

(** C4.  The part of the claim about states that are not playing holds
    ([overlay_shown_unless_playing]); the part about the timer does not.
    The pointer moves while the player is paused, the user starts playback
    and then leaves the pointer alone: the timer armed by the move expires
    after the delay while the player is playing, and the controls stay
    visible, because the callback tests the [isPlaying] of the render in
    which the pointer moved. *)
Theorem stale_timer_keeps_controls (w : World) :
  isPlaying (ui w) = false ->
  let id := nextTimer w in
  let w1 := step OnPlay (step ClickPlayPause (step MouseMove w)) in
  let w2 := step (Tick HIDE_DELAY) w1 in
  let w3 := step (TimerFire id) w2 in
  inPhase Playing (ui w2) = true /\
  timers w2 !! id = Some (mkTimer (clock w + HIDE_DELAY) false) /\
  clock w2 = (clock w + HIDE_DELAY)%nat /\
  inPhase Playing (ui w3) = true /\
  timers w3 !! id = None /\
  controlsVisible (ui w3) = true.
Proof.
  intros Hp id.
  destruct (pointer_arms_timer w) as (Ht & Hs & Hpl & Hc & Hk & _).
  rewrite Hp in Ht, Hpl. fold id in Ht, Hc.
  set (wm := step MouseMove w) in *.
  assert (Ec : ui (step ClickPlayPause wm) = ui wm /\
               timers (step ClickPlayPause wm) = timers wm /\
               clock (step ClickPlayPause wm) = clock wm).
  { assert (E : step ClickPlayPause wm = handle ClickPlayPause wm).
    { apply commit_same_ui. simpl. unfold togglePlayPause. unfold_handlers. by_cases. }
    rewrite E. simpl. unfold togglePlayPause. unfold_handlers. by_cases. }
  destruct Ec as (Eu & Et & Ek).
  set (wc := step ClickPlayPause wm) in *.
  assert (E1 : step OnPlay wc = with_ui (setIsPlaying true) wc).
  { unfold step, commit. simpl. rewrite Eu, Hpl. simpl.
    rewrite decide_True by reflexivity.
    rewrite sameValue_refl.
    reflexivity. }
  simpl. rewrite E1.
  set (w1 := with_ui (setIsPlaying true) wc).
  assert (E2 : step (Tick HIDE_DELAY) w1 = with_clock (clock w1 + HIDE_DELAY)%nat w1)
    by (apply commit_same_ui; reflexivity).
  rewrite E2.
  set (w2 := with_clock (clock w1 + HIDE_DELAY)%nat w1).
  assert (Ht2 : timers w2 !! id = Some (mkTimer (clock w + HIDE_DELAY) false))
    by (subst w2 w1; simpl; rewrite Et; exact Ht).
  assert (Hk2 : clock w2 = (clock w + HIDE_DELAY)%nat)
    by (subst w2 w1; simpl; rewrite Ek, Hk; reflexivity).
  assert (E3 : step (TimerFire id) w2 = clearTimeout id w2).
  { assert (Hh : handle (TimerFire id) w2 = clearTimeout id w2).
    { simpl. unfold timerFire. rewrite Ht2, Hk2. simpl.
      rewrite (proj2 (Nat.leb_le _ _)) by lia. reflexivity. }
    unfold step. rewrite Hh. apply commit_same_ui. reflexivity. }
  rewrite E3.
  repeat split; try done.
  - simpl. apply lookup_delete_eq.
  - unfold controlsVisible. simpl. rewrite Eu, Hs. reflexivity.
Qed.

Lemma stale_timer_keeps_controls_witness :
  let w := run [OnLoadStart; OnCanPlay; Settle 0 Fulfilled; OnPlay; OnPause]
               (mount (mkVideo 0 120 1 true) (mkRect 100 400)) in
  let w1 := step OnPlay (step ClickPlayPause (step MouseMove w)) in
  let w3 := step (TimerFire (nextTimer w)) (step (Tick HIDE_DELAY) w1) in
  inPhase Playing (ui w3) = true /\
  timers w3 !! nextTimer w = None /\
  controlsVisible (ui w3) = true.
Proof.
  intros w.
  destruct (stale_timer_keeps_controls w eq_refl) as (_ & _ & _ & H).
  exact H.
Defined.

(** C9.  The claim fails on [togglePlayPause].  With the element mounted
    and the player not playing, the play button calls [play()] and drops
    the promise; when the platform rejects it, no component state changes,
    nothing is written to the console and the rejection ends up unhandled.
    The same rejection after [handleCanPlay] sets the error flag
    ([settle_autoplay_rejected]) and a fullscreen rejection is logged by
    the [catch] blocks of [toggleFullscreen]. *)
Theorem toggle_play_rejection_unhandled (w : World) (v : Video) :
  videoRef w = Some v ->
  isPlaying (ui w) = false ->
  let id := nextPromise w in
  let w1 := step ClickPlayPause w in
  let w2 := step (Settle id Rejected) w1 in
  calls w1 = calls w ++ [CallPlay] /\
  promises w1 !! id = Some Discarded /\
  ui w2 = ui w /\
  console w2 = console w /\
  unhandled w2 = unhandled w ++ [id].
Proof.
  intros Hv Hp id w1 w2.
  assert (E1 : w1 = spawn Discarded (call CallPlay w)).
  { subst w1. unfold step.
    assert (Hh : handle ClickPlayPause w = spawn Discarded (call CallPlay w)).
    { simpl. unfold togglePlayPause. rewrite Hv, Hp. reflexivity. }
    rewrite Hh. apply commit_same_ui. reflexivity. }
  assert (Hl : promises w1 !! id = Some Discarded).
  { rewrite E1. simpl. apply lookup_insert_eq. }
  assert (Hh2 : handle (Settle id Rejected) w1
          = with_unhandled (unhandled w1 ++ [id])
              (with_promises (delete id (promises w1)) (nextPromise w1) w1)).
  { simpl. unfold settle. rewrite Hl. reflexivity. }
  assert (E2 : w2 = handle (Settle id Rejected) w1).
  { subst w2. unfold step. apply commit_same_ui. rewrite Hh2. reflexivity. }
  rewrite E2, Hh2. rewrite E1 at 1. simpl.
  repeat split; try exact Hl; rewrite E1; reflexivity.
Qed.

Lemma toggle_play_rejection_unhandled_witness :
  let w := run [OnLoadStart; OnCanPlay; Settle 0 Fulfilled; OnPlay; OnPause]
               (mount (mkVideo 0 120 1 true) (mkRect 100 400)) in
  let w2 := step (Settle (nextPromise w) Rejected) (step ClickPlayPause w) in
  ui w2 = ui w /\
  console w2 = console w /\
  unhandled w2 = unhandled w ++ [nextPromise w].
Proof.
  intros w.
  destruct (toggle_play_rejection_unhandled w (mkVideo 0 120 1 true) eq_refl eq_refl)
    as (_ & _ & H).
  exact H.
Defined.

(** C10.  The progress percentage is the literal 0 whenever the stored
    duration is not positive (zero, negative or NaN), and the quotient is
    formed only under a positive duration, which is not a zero; with the
    stored duration equal to 0, a click whose fraction of the bar is a
    finite number sets the element's position to [fraction * 0], which is
    a zero for every pointer position. *)
Theorem unknown_duration_is_safe :
  (forall s, gtb (duration s) 0 = false -> progressPercentage s = 0) /\
  (forall s, gtb (duration s) 0 = true ->
             progressPercentage s = currentTime s / duration s * 100 /\
             is_zero (duration s) = false) /\
  (forall w bar v clientX,
      progressBarRef w = Some bar ->
      videoRef w = Some v ->
      is_finite ((clientX - rect_left bar) / rect_width bar) = true ->
      is_zero (duration (ui w)) = true ->
      exists t, elementTime (step (ProgressClick clientX) w) = Some t /\
                is_zero t = true).
Proof.
  split; [|split].
  - intros s Hd. unfold progressPercentage. rewrite Hd. reflexivity.
  - intros s Hd. unfold progressPercentage. rewrite Hd.
    split; [reflexivity|]. apply positive_not_zero. exact Hd.
  - intros w bar v clientX Hb Hv Hf Hd.
    exists ((clientX - rect_left bar) / rect_width bar * duration (ui w)).
    split.
    + unfold elementTime, step. autorewrite with commit_rw.
      simpl. unfold handleSeek. rewrite Hb, Hv. reflexivity.
    + apply finite_times_zero; assumption.
Qed.

Lemma unknown_duration_is_safe_witness :
  let w := mount (mkVideo 0 120 1 true) (mkRect 100 400) in
  progressPercentage (ui w) = 0 /\
  exists t, elementTime (step (ProgressClick 300) w) = Some t /\ is_zero t = true.
Proof.
  intros w.
  destruct unknown_duration_is_safe as (H1 & _ & H3).
  split.
  - apply H1. reflexivity.
  - apply (H3 w (mkRect 100 400) (mkVideo 0 120 1 true) 300); reflexivity.
Defined.

(** * Further properties of the component *)

(** ** The auto-hide timer occupies one slot *)

Lemma commit_nextTimer old new : nextTimer (commit old new) = nextTimer new.
Proof. unfold commit, clearTimeout. by_cases. Qed.

Lemma commit_clock old new : clock (commit old new) = clock new.
Proof. apply (commit_platform old new). Qed.

Lemma commit_controlsTimeout old new :
  controlsTimeout (ui (commit old new)) = controlsTimeout (ui new).
Proof. apply (commit_frame old new). Qed.

Lemma commit_timers_same old new :
  controlsTimeout (ui old) = controlsTimeout (ui new) ->
  timers (commit old new) = timers new.
Proof. intros E. unfold commit, clearTimeout. rewrite E. by_cases. Qed.

Lemma commit_timers_changed old new :
  controlsTimeout (ui old) <> controlsTimeout (ui new) ->
  timers (commit old new)
  = match truthy (controlsTimeout (ui old)) with
    | Some id => delete id (timers new)
    | None => timers new
    end.
Proof. intros E. unfold commit, clearTimeout. by_cases. Qed.

Lemma step_timer_frame e w :
  timerEvent e = false ->
  timers (step e w) = timers w /\
  nextTimer (step e w) = nextTimer w /\
  controlsTimeout (ui (step e w)) = controlsTimeout (ui w) /\
  clock (step e w) = clock w.
Proof.
  intros He.
  assert (H : timers (handle e w) = timers w /\
              nextTimer (handle e w) = nextTimer w /\
              controlsTimeout (ui (handle e w)) = controlsTimeout (ui w) /\
              clock (handle e w) = clock w).
  { destruct e; try discriminate He; unfold_handlers; by_cases. }
  destruct H as (H1 & H2 & H3 & H4). unfold step.
  rewrite commit_nextTimer, commit_controlsTimeout, commit_clock.
  rewrite commit_timers_same by (symmetry; exact H3). auto.
Qed.

Lemma truthy_positive h id : truthy h = Some id <-> h = Some id /\ (1 <= id)%nat.
Proof.
  destruct h as [[|n]|]; simpl; split.
  - discriminate.
  - intros [[= <-] H]. lia.
  - intros [= <-]. split; [reflexivity|lia].
  - intros [H _]. exact H.
  - discriminate.
  - intros [H _]. discriminate H.
Qed.

Lemma pointer_keeps_timerSlot w :
  timerSlot w -> timerSlot (commit w (showControlsTemporarily w)).
Proof.
  intros (Hp & Hh & Ht).
  set (new := showControlsTemporarily w).
  assert (Hc : controlsTimeout (ui new) = Some (nextTimer w)).
  { subst new. unfold showControlsTemporarily, setTimeout, clearTimeout. by_cases. }
  assert (Hn : nextTimer new = S (nextTimer w)).
  { subst new. unfold showControlsTemporarily, setTimeout, clearTimeout. by_cases. }
  assert (Hk : clock new = clock w).
  { subst new. unfold showControlsTemporarily, setTimeout, clearTimeout. by_cases. }
  assert (Hm : timers new
               = {[ nextTimer w := mkTimer (clock w + HIDE_DELAY) (isPlaying (ui w)) ]}).
  { subst new. unfold showControlsTemporarily, setTimeout, clearTimeout.
    destruct (truthy (controlsTimeout (ui w))) as [old|] eqn:Eo; simpl.
    - apply truthy_positive in Eo as [Eo _].
      destruct Ht as [-> | (id & t & -> & Hid & _)].
      + rewrite delete_empty. reflexivity.
      + assert (id = old) as -> by congruence.
        rewrite delete_singleton_eq. reflexivity.
    - destruct Ht as [-> | (id & t & _ & Hid & _)]; [reflexivity|].
      destruct (Hh id Hid) as [Hpos _].
      assert (truthy (controlsTimeout (ui w)) = Some id)
        by (apply truthy_positive; auto).
      congruence. }
  assert (Hne : controlsTimeout (ui w) <> controlsTimeout (ui new)).
  { rewrite Hc. intros E. destruct (Hh _ E). lia. }
  split; [|split].
  - rewrite commit_nextTimer, Hn. lia.
  - intros id. rewrite commit_controlsTimeout, commit_nextTimer, Hc, Hn.
    intros [= <-]. lia.
  - right. exists (nextTimer w), (mkTimer (clock w + HIDE_DELAY) (isPlaying (ui w))).
    rewrite commit_controlsTimeout, commit_clock, Hc, Hk.
    split; [|split; [reflexivity|simpl; lia]].
    rewrite commit_timers_changed by exact Hne. rewrite Hm.
    destruct (truthy (controlsTimeout (ui w))) as [old|] eqn:Eo; [|reflexivity].
    apply truthy_positive in Eo as [Eo _].
    destruct (Hh old Eo) as [_ Hlt].
    apply delete_singleton_ne. lia.
Qed.

Lemma step_keeps_timerSlot e w : timerSlot w -> timerSlot (step e w).
Proof.
  intros Hs.
  destruct (timerEvent e) eqn:He.
  - destruct e; try discriminate He.
    + apply pointer_keeps_timerSlot, Hs.
    + apply pointer_keeps_timerSlot, Hs.
    + (* the timer expires *)
      destruct Hs as (Hp & Hh & Ht). unfold step.
      assert (Hc : controlsTimeout (ui (handle (TimerFire id) w))
                   = controlsTimeout (ui w)).
      { simpl. unfold timerFire, clearTimeout. by_cases. }
      assert (Hn : nextTimer (handle (TimerFire id) w) = nextTimer w).
      { simpl. unfold timerFire, clearTimeout. by_cases. }
      assert (Hk : clock (handle (TimerFire id) w) = clock w).
      { simpl. unfold timerFire, clearTimeout. by_cases. }
      assert (Hm : timers (handle (TimerFire id) w) = timers w \/
                   timers (handle (TimerFire id) w) = delete id (timers w) /\
                   is_Some (timers w !! id)).
      { simpl. unfold timerFire, clearTimeout. by_cases; eauto. }
      split; [|split].
      * rewrite commit_nextTimer, Hn. exact Hp.
      * intros i. rewrite commit_controlsTimeout, commit_nextTimer, Hc, Hn.
        apply Hh.
      * rewrite commit_timers_same by (symmetry; exact Hc).
        rewrite commit_controlsTimeout, commit_clock, Hc, Hk.
        destruct Hm as [-> | [-> [t Hl]]]; [exact Ht|].
        left. destruct Ht as [E | (i & t' & E & _)]; rewrite E in Hl |- *.
        -- apply delete_empty.
        -- apply lookup_singleton_Some in Hl as [<- _].
           apply delete_singleton_eq.
    + (* time passes *)
      destruct Hs as (Hp & Hh & Ht).
      assert (E : step (Tick ms) w = with_clock (clock w + ms)%nat w)
        by (apply commit_same_ui; reflexivity).
      rewrite E. split; [exact Hp|]. split; [exact Hh|].
      destruct Ht as [Ht | (i & t & Hm & Hi & Hd)]; [left; exact Ht|].
      right. exists i, t. simpl. repeat split; auto. lia.
  - destruct (step_timer_frame e w He) as (H1 & H2 & H3 & H4).
    unfold timerSlot. rewrite H1, H2, H3, H4. exact Hs.
Qed.

Lemma run_keeps_timerSlot es : forall w, timerSlot w -> timerSlot (run es w).
Proof.
  induction es as [|e es IH]; intros w Hw; [exact Hw|].
  rewrite run_cons. apply IH, step_keeps_timerSlot, Hw.
Qed.

Lemma mount_timerSlot v bar : timerSlot (mount v bar).
Proof.
  split; [simpl; lia|]. split; [intros id; discriminate|].
  left. reflexivity.
Qed.



(** ** The keyboard listener *)

Lemma commit_keyIsPlaying_same old new :
  duration (ui old) = duration (ui new) ->
  keyIsPlaying (commit old new) = keyIsPlaying new.
Proof.
  intros E. unfold commit, clearTimeout. rewrite E.
  rewrite sameValue_refl.
  by_cases.
Qed.

Lemma commit_keyIsPlaying_paused old new :
  keyIsPlaying new = false -> isPlaying (ui new) = false ->
  keyIsPlaying (commit old new) = false.
Proof. intros E1 E2. unfold commit, clearTimeout. by_cases. Qed.

Lemma handle_keeps_keyIsPlaying e w : keyIsPlaying (handle e w) = keyIsPlaying w.
Proof. destruct e; unfold_handlers; by_cases. Qed.

(** The stored duration is written by [handleCanPlay] alone. *)
Lemma handle_keeps_duration e w :
  e <> OnCanPlay -> duration (ui (handle e w)) = duration (ui w).
Proof. intros He. destruct e; try congruence; unfold_handlers; by_cases. Qed.

(** The playing flag is written by [handlePlay] and [handlePause] alone. *)
Lemma handle_keeps_isPlaying e w :
  e <> OnPlay -> e <> OnPause -> isPlaying (ui (handle e w)) = isPlaying (ui w).
Proof. intros H1 H2. destruct e; try congruence; unfold_handlers; by_cases. Qed.

Lemma startup_key_handler es : forall w,
  Forall (fun e => e <> OnPlay) es ->
  isPlaying (ui w) = false -> keyIsPlaying w = false ->
  isPlaying (ui (run es w)) = false /\ keyIsPlaying (run es w) = false.
Proof.
  induction es as [|e es IH]; intros w Hes Hp Hk; [auto|].
  inversion Hes as [|? ? He Hes']; subst. rewrite run_cons.
  assert (Hp' : isPlaying (ui (handle e w)) = false).
  { clear IH Hes. destruct e; try congruence; unfold_handlers; by_cases. }
  apply IH; [exact Hes'| |].
  - unfold step. rewrite commit_isPlaying. exact Hp'.
  - unfold step. apply commit_keyIsPlaying_paused; [|exact Hp'].
    rewrite handle_keeps_keyIsPlaying. exact Hk.
Qed.

Lemma later_key_handler es : forall w,
  Forall (fun e => e <> OnCanPlay) es ->
  keyIsPlaying (run es w) = keyIsPlaying w.
Proof.
  induction es as [|e es IH]; intros w Hes; [reflexivity|].
  inversion Hes as [|? ? He Hes']; subst. rewrite run_cons, IH by exact Hes'.
  unfold step. rewrite commit_keyIsPlaying_same.
  - apply handle_keeps_keyIsPlaying.
  - symmetry. apply handle_keeps_duration, He.
Qed.



(** X4.  Key codes other than the five bound ones are ignored: the world
    after the key press is the world before it.  Codes are compared
    exactly, so ["space"] or ["Enter"] do nothing. *)
Theorem unbound_keys_ignored (code : string) (w : World) :
  code <> "Space"%string -> code <> "KeyM"%string -> code <> "KeyF"%string ->
  code <> "ArrowLeft"%string -> code <> "ArrowRight"%string ->
  step (KeyDown code) w = w.
Proof.
  intros H1 H2 H3 H4 H5.
  assert (E : handle (KeyDown code) w = w).
  { simpl. unfold handleKeyDown.
    rewrite (proj2 (String.eqb_neq _ _) H1), (proj2 (String.eqb_neq _ _) H2),
      (proj2 (String.eqb_neq _ _) H3), (proj2 (String.eqb_neq _ _) H4),
      (proj2 (String.eqb_neq _ _) H5). reflexivity. }
  unfold step. rewrite E. apply commit_same_ui. reflexivity.
Qed.

Lemma unbound_keys_ignored_witness :
  let w := step OnCanPlay (mount (mkVideo 0 120 1 true) (mkRect 100 400)) in
  step (KeyDown "space") w = w.
Proof.
  intros w. apply unbound_keys_ignored; discriminate.
Defined.

(** ** Who writes which piece of state *)

Lemma commit_currentTime old new :
  currentTime (ui (commit old new)) = currentTime (ui new).
Proof. apply (commit_frame old new). Qed.

(** Effects run only when [isPlaying], [controlsTimeout] or [duration]
    changed. *)
Lemma commit_quiet old new :
  isPlaying (ui new) = isPlaying (ui old) ->
  controlsTimeout (ui new) = controlsTimeout (ui old) ->
  duration (ui new) = duration (ui old) ->
  commit old new = new.
Proof.
  intros E1 E2 E3. unfold commit. rewrite E1, E2, E3, eqb_reflx.
  rewrite decide_True by reflexivity.
  rewrite sameValue_refl.
  reflexivity.
Qed.

(** X5.  The playing flag mirrors the element and is never set
    optimistically: after any event it is [true] for the element's [play],
    [false] for its [pause], and otherwise what it was.  In particular the
    play button and the Space key, which call [play()] or [pause()], leave
    it alone until the element reports back. *)
Theorem playing_flag_follows_element (e : Event) (w : World) :
  isPlaying (ui (step e w))
  = match e with
    | OnPlay => true
    | OnPause => false
    | _ => isPlaying (ui w)
    end.
Proof.
  unfold step. rewrite commit_isPlaying.
  destruct e; unfold_handlers; by_cases.
Qed.

(** X6.  The error panel comes up for two reasons only: the element's
    [error] event, or the rejection of the [play()] promise issued by
    [handleCanPlay].  No click, key, pointer move, timer or other promise
    raises the error flag. *)
Theorem error_raised_only_by_media (e : Event) (w : World) :
  hasError (ui w) = false ->
  hasError (ui (step e w)) = true ->
  e = OnError \/
  exists id, e = Settle id Rejected /\ promises w !! id = Some AutoplayCatch.
Proof.
  unfold step. rewrite commit_hasError. intros H0 H1.
  destruct e; try (left; reflexivity);
    try (exfalso; revert H1; unfold_handlers; by_cases; congruence).
  right. exists id. revert H1. simpl. unfold settle.
  destruct (promises w !! id) as [[]|] eqn:E; destruct o; simpl;
    intros H1; try congruence; auto.
Qed.

Lemma error_raised_only_by_media_witness :
  let w := step OnCanPlay (mount (mkVideo 0 120 1 true) (mkRect 100 400)) in
  Settle 0 Rejected = OnError \/
  exists id, Settle 0 Rejected = Settle id Rejected /\
             promises w !! id = Some AutoplayCatch.
Proof.
  intros w.
  exact (error_raised_only_by_media (Settle 0 Rejected) w eq_refl eq_refl).
Defined.

(** X7.  The displayed time and duration follow the element's reports
    only: [currentTime] is written by [timeupdate] and [duration] by
    [canplay], each from the mounted element.  A click on the progress bar
    or an arrow key moves the element and leaves the display as it was
    until the next [timeupdate]. *)
Theorem display_follows_reports (e : Event) (w : World) :
  currentTime (ui (step e w))
  = match e, videoRef w with
    | OnTimeUpdate, Some v => el_currentTime v
    | _, _ => currentTime (ui w)
    end /\
  duration (ui (step e w))
  = match e, videoRef w with
    | OnCanPlay, Some v => el_duration v
    | _, _ => duration (ui w)
    end.
Proof.
  unfold step. rewrite commit_currentTime, commit_duration.
  destruct e; unfold_handlers; simpl; destruct (videoRef w) eqn:Hv;
    by_cases; split; congruence.
Qed.

(** ** Mute and volume *)

Lemma step_keeps_audioMirrored e w : audioMirrored w -> audioMirrored (step e w).
Proof.
  intros (v & Hv & Hm & Hx). unfold audioMirrored, step.
  rewrite commit_videoRef, commit_isMuted, commit_volume.
  destruct e; unfold_handlers; simpl; rewrite ?Hv; by_cases;
    try congruence; eauto.
Qed.

(** X8.  The mute icon and the stored volume never drift from the element:
    when the element starts muted at full volume, as the [muted] attribute
    and the [useState] defaults have it, then after any events the
    component's [isMuted] and [volume] are the element's [muted] and
    [volume]. *)
Theorem audio_state_mirrors_element (es : list Event) (v : Video) (bar : Rect) :
  el_muted v = true -> el_volume v = 1 ->
  let w := run es (mount v bar) in
  elementMuted w = Some (isMuted (ui w)) /\
  elementVolume w = Some (volume (ui w)).
Proof.
  intros Hm Hx w.
  assert (G : forall es w0, audioMirrored w0 -> audioMirrored (run es w0)).
  { clear. induction es as [|e es IH]; intros w0 H0; [exact H0|].
    rewrite run_cons. apply IH, step_keeps_audioMirrored, H0. }
  destruct (G es (mount v bar)) as (v' & Hv' & Hm' & Hx').
  { exists v. simpl. auto. }
  fold w in Hv'. unfold elementMuted, elementVolume.
  rewrite Hv'. simpl. rewrite Hm', Hx'. fold w. auto.
Qed.

Lemma audio_state_mirrors_element_witness :
  let w := run [OnCanPlay; VolumeInput 0.25; ClickMute; KeyDown "KeyM"; ClickMute]
               (mount (mkVideo 0 120 1 true) (mkRect 100 400)) in
  elementMuted w = Some (isMuted (ui w)) /\
  elementVolume w = Some (volume (ui w)).
Proof.
  intros w.
  exact (audio_state_mirrors_element _ (mkVideo 0 120 1 true) (mkRect 100 400)
           eq_refl eq_refl).
Defined.

(** X9.  Muting twice is the identity: when the component's mute flag
    agrees with the mounted element, two mute toggles in a row give back
    exactly the world they started from. *)
Theorem mute_toggle_involutive (w : World) (v : Video) :
  videoRef w = Some v ->
  el_muted v = isMuted (ui w) ->
  step ClickMute (step ClickMute w) = w.
Proof.
  intros Hv Hm.
  assert (E : forall w0 v0, videoRef w0 = Some v0 ->
            step ClickMute w0
            = with_ui (setIsMuted (negb (el_muted v0)))
                (with_video (el_setMuted (negb (el_muted v0)) v0) w0)).
  { intros w0 v0 H0.
    assert (Hh : handle ClickMute w0
                 = with_ui (setIsMuted (negb (el_muted v0)))
                     (with_video (el_setMuted (negb (el_muted v0)) v0) w0)).
    { simpl. unfold toggleMute. rewrite H0. reflexivity. }
    unfold step. rewrite Hh. apply commit_quiet; reflexivity. }
  rewrite (E w v Hv). erewrite E by reflexivity.
  destruct w as [s vr pb fe tm nt pr np ck co un ca kp]. destruct s, v.
  simpl in *. subst. rewrite negb_involutive. reflexivity.
Qed.

Lemma mute_toggle_involutive_witness :
  let w := run [OnCanPlay; VolumeInput 0.25]
               (mount (mkVideo 0 120 1 true) (mkRect 100 400)) in
  step ClickMute (step ClickMute w) = w.
Proof.
  intros w.
  exact (mute_toggle_involutive w (mkVideo 0 120 0.25 false) eq_refl eq_refl).
Defined.

(** X10.  The volume slider shows what the user set: in any state reached
    after mounting, dragging the slider to [x] makes it show [x]; muting
    makes it show 0 and unmuting brings [x] back. *)
Theorem slider_shows_volume (es : list Event) (v : Video) (bar : Rect) (x : float) :
  let w1 := step (VolumeInput x) (run es (mount v bar)) in
  sliderValue (ui w1) = x /\
  sliderValue (ui (step ClickMute w1)) = 0 /\
  sliderValue (ui (step ClickMute (step ClickMute w1))) = x.
Proof.
  destruct (mounted_refs es v bar) as [[v' Hv] _].
  set (w := run es (mount v bar)) in *. clearbody w. simpl.
  unfold sliderValue, step.
  repeat (autorewrite with commit_rw; simpl).
  unfold handleVolumeChange, toggleMute. simpl. rewrite Hv.
  repeat (autorewrite with commit_rw; simpl). auto.
Qed.

(** ** Arrow keys *)

Lemma float_ltb_not_nan a b :
  (a <? b) = true -> is_nan a = false /\ is_nan b = false.
Proof.
  rewrite FloatAxioms.ltb_spec. unfold SFltb, is_nan.
  rewrite !FloatAxioms.eqb_spec. unfold SFeqb. intros H.
  assert (Ha : Prim2SF a <> S754_nan).
  { intros E. rewrite E in H. discriminate H. }
  assert (Hb : Prim2SF b <> S754_nan).
  { intros E. rewrite E in H. destruct (Prim2SF a); discriminate H. }
  assert (R : forall f, f <> S754_nan -> SFcompare f f = Some Eq).
  { intros f Hf. destruct (SFcompare_some _ _ Hf Hf) as [c Hc].
    pose proof (SFcompare_antisym _ _ _ Hc) as Hc'. rewrite Hc in Hc'.
    destruct c; try discriminate. exact Hc. }
  rewrite (R _ Ha), (R _ Hb). auto.
Qed.

Lemma float_ltb_asym a b : (a <? b) = true -> (b <? a) = false.
Proof.
  rewrite !FloatAxioms.ltb_spec. unfold SFltb.
  destruct (SFcompare (Prim2SF a) (Prim2SF b)) as [[]|] eqn:E; try discriminate.
  rewrite (SFcompare_antisym _ _ _ E). reflexivity.
Qed.

Lemma Math_min_cases a b :
  ((a <? b) = true -> Math_min a b = a) /\
  ((b <? a) = true -> Math_min a b = b).
Proof.
  unfold Math_min. split; intros H.
  - destruct (float_ltb_not_nan _ _ H) as [-> ->]. simpl. rewrite H. reflexivity.
  - destruct (float_ltb_not_nan _ _ H) as [-> ->]. simpl.
    rewrite (float_ltb_asym _ _ H), H. reflexivity.
Qed.

Lemma Math_max_cases a b :
  ((a <? b) = true -> Math_max a b = b) /\
  ((b <? a) = true -> Math_max a b = a).
Proof.
  unfold Math_max. split; intros H.
  - destruct (float_ltb_not_nan _ _ H) as [-> ->]. simpl. rewrite H. reflexivity.
  - destruct (float_ltb_not_nan _ _ H) as [-> ->]. simpl.
    rewrite (float_ltb_asym _ _ H), H. reflexivity.
Qed.

(** X11.  Where the arrow keys land.  With the element at [t] and the
    stored duration [d]: the Right arrow lands exactly on [d] when [t + 10]
    is beyond it and on [t + 10] when that is short of [d]; the Left arrow
    lands exactly on 0 when [t - 10] is negative and on [t - 10] when that
    is positive. *)
Theorem arrow_keys_landing (w : World) (v : Video) :
  videoRef w = Some v ->
  let t := el_currentTime v in
  let d := duration (ui w) in
  ((d <? t + 10) = true -> elementTime (step (KeyDown "ArrowRight") w) = Some d) /\
  ((t + 10 <? d) = true ->
     elementTime (step (KeyDown "ArrowRight") w) = Some (t + 10)) /\
  ((t - 10 <? 0) = true -> elementTime (step (KeyDown "ArrowLeft") w) = Some 0) /\
  ((0 <? t - 10) = true ->
     elementTime (step (KeyDown "ArrowLeft") w) = Some (t - 10)).
Proof.
  intros Hv t d.
  assert (ER : elementTime (step (KeyDown "ArrowRight") w)
               = Some (Math_min d (t + 10))).
  { unfold elementTime, step. autorewrite with commit_rw.
    simpl. unfold handleKeyDown. simpl. rewrite Hv. reflexivity. }
  assert (EL : elementTime (step (KeyDown "ArrowLeft") w)
               = Some (Math_max 0 (t - 10))).
  { unfold elementTime, step. autorewrite with commit_rw.
    simpl. unfold handleKeyDown. simpl. rewrite Hv. reflexivity. }
  rewrite ER, EL.
  destruct (Math_min_cases d (t + 10)) as [M1 M2].
  destruct (Math_max_cases 0 (t - 10)) as [X1 X2].
  repeat split; intros H.
  - rewrite (M1 H). reflexivity.
  - rewrite (M2 H). reflexivity.
  - rewrite (X2 H). reflexivity.
  - rewrite (X1 H). reflexivity.
Qed.

Lemma arrow_keys_landing_witness :
  let w := step (MediaProgress 115 120)
             (step OnCanPlay (mount (mkVideo 0 120 1 true) (mkRect 100 400))) in
  elementTime (step (KeyDown "ArrowRight") w) = Some (duration (ui w)) /\
  elementTime (step (KeyDown "ArrowLeft") w)
  = Some (el_currentTime (mkVideo 115 120 1 true) - 10).
Proof.
  intros w.
  destruct (arrow_keys_landing w (mkVideo 115 120 1 true) eq_refl)
    as (H1 & _ & _ & H4).
  split; [apply H1; reflexivity | apply H4; reflexivity].
Defined.
